(** * Key-metadata records of the keyring: [crypto/keyring/info.go]

    A shallow embedding of the four [Info] implementations ([localInfo],
    [ledgerInfo], [offlineInfo], [multiInfo]), of the multisig constructor
    [NewMultiInfo] and of the length-prefixed codec behind [marshalInfo] and
    [unmarshalInfo]. *)

From Stdlib Require Import NArith Lia.
From Stdlib Require Strings.Byte.
From stdpp Require Import base option list strings.

Local Open Scope N_scope.

(** ** Values shared by all records *)

Abbreviation byte := Init.Byte.byte.

(** Modelled from the spec: [KeyType] and its constants [TypeLocal],
    [TypeLedger], [TypeOffline] and [TypeMulti], which [GetType] returns,
    are declared in another file of the package; the spec gives the tag set
    {Local, HardwareDevice, Offline, MultiSig}. *)
Inductive KeyType : Set := TypeLocal | TypeLedger | TypeOffline | TypeMulti.

(** Modelled from the spec: the error kinds a caller can be handed back,
    as its error-handling section names them.  In [info.go] only
    [PathUnavailable] occurs: it is the value built by
    [fmt.Errorf("BIP44 Paths are not available for this type")] in the
    three [GetPath] methods that have no path. *)
Inductive error : Set :=
| PathUnavailable
| UnknownVariant
| TruncatedInput
| TrailingBytes
| MalformedField
| NotAMultisigKey.

(** Run-time panics of the Go program: a failed single-value type assertion
    [x.(T)], a method call through a nil interface value, an index outside
    a slice, and a panic raised inside a method of another package that
    this file calls. *)
Inductive panic : Set :=
| InterfaceConversion
| NilDereference
| IndexOutOfRange
| CalleePanic.

(** What a call does: it returns a value, returns a non-nil [error], or
    unwinds with a panic. *)
Inductive result (A : Type) : Type :=
| Ok (a : A)
| Err (e : error)
| Panic (p : panic).
Arguments Ok {A} a.
Arguments Err {A} e.
Arguments Panic {A} p.

(** Sequencing: an error or a panic ends the computation. *)
Definition and_then {A B : Type} (r : result A) (f : A → result B) : result B :=
  match r with
  | Ok a => f a
  | Err e => Err e
  | Panic p => Panic p
  end.

(** [crypto.PubKey] is an interface.  Its dynamic value is nil, the struct
    [multisig.PubKeyMultisigThreshold] (of which [NewMultiInfo] reads the
    fields [K] and [PubKeys]), or a key of any other concrete type, which
    this file only ever moves around: its type name and raw bytes. *)
#[warnings="-register-all"]
Inductive crypto_PubKey : Type :=
| PubKeyNil
| PubKeyPlain (type_name : string) (key : list byte)
| PubKeyMultisigThreshold (K : N) (PubKeys : list crypto_PubKey).

(** [types.AccAddress] is a byte slice. *)
Definition AccAddress : Type := list byte.

(** ** The four structs

    Each struct lives in a module of its name so that the fields keep the
    names of the source.  [SigningAlgo] and [hd.BIP44Params] are declared in
    other files of the package and stay type parameters. *)

Module localInfo.
Record t {SigningAlgo : Type} : Type := mk {
  Name : string;
  PubKey : crypto_PubKey;
  PrivKeyArmor : string;
  Algo : SigningAlgo
}.
Arguments t : clear implicits.
Arguments mk {SigningAlgo}.
End localInfo.

Module ledgerInfo.
Record t {SigningAlgo BIP44Params : Type} : Type := mk {
  Name : string;
  PubKey : crypto_PubKey;
  Path : BIP44Params;
  Algo : SigningAlgo
}.
Arguments t : clear implicits.
Arguments mk {SigningAlgo BIP44Params}.
End ledgerInfo.

Module offlineInfo.
Record t {SigningAlgo : Type} : Type := mk {
  Name : string;
  PubKey : crypto_PubKey;
  Algo : SigningAlgo
}.
Arguments t : clear implicits.
Arguments mk {SigningAlgo}.
End offlineInfo.

Module multisigPubKeyInfo.
Record t : Type := mk {
  PubKey : crypto_PubKey;
  Weight : N
}.
End multisigPubKeyInfo.

Module multiInfo.
Record t : Type := mk {
  Name : string;
  PubKey : crypto_PubKey;
  Threshold : N;
  PubKeys : list multisigPubKeyInfo.t
}.
End multiInfo.

(** [Info] is the interface; a value of it is one of the four structs. *)
Inductive Info {SigningAlgo BIP44Params : Type} : Type :=
| InfoLocal (i : localInfo.t SigningAlgo)
| InfoLedger (i : ledgerInfo.t SigningAlgo BIP44Params)
| InfoOffline (i : offlineInfo.t SigningAlgo)
| InfoMulti (i : multiInfo.t).
Arguments Info : clear implicits.

(** ** Go control flow used by the constructor *)

(** [s[i] = x]: panics when [i] is not an index of [s]. *)
Definition slice_set {A : Type} (s : list A) (i : nat) (x : A) : result (list A) :=
  if decide (i < length s)%nat then Ok (<[i := x]> s)
  else Panic IndexOutOfRange.

(** [for i, x := range xs { body }] on the state [s], counting from [i]. *)
Fixpoint range_from {A St : Type} (i : nat) (xs : list A)
    (body : nat → A → St → result St) (s : St) : result St :=
  match xs with
  | [] => Ok s
  | x :: xs' => and_then (body i x s) (range_from (S i) xs' body)
  end.

Definition for_range {A St : Type} (xs : list A)
    (body : nat → A → St → result St) (s : St) : result St :=
  range_from 0 xs body s.

(** The zero value of [multisigPubKeyInfo], with which [make] fills a slice. *)
Definition multisigPubKeyInfo_zero : multisigPubKeyInfo.t :=
  multisigPubKeyInfo.mk PubKeyNil 0.

Definition make (n : nat) : list multisigPubKeyInfo.t :=
  replicate n multisigPubKeyInfo_zero.

(** ** Wire primitives of the codec

    [marshalInfo] and [unmarshalInfo] call the registry [CryptoCdc], whose
    methods [MustMarshalBinaryLengthPrefixed] and
    [UnmarshalBinaryLengthPrefixed] are not part of [info.go].  The spec
    gives their layout, [[varint length][1-byte variant
    discriminant][variant fields in fixed order]]; a field is written here
    as a varint (unsigned integers), as a length-prefixed byte string
    (strings and the serialised values of the collaborator types), or as a
    count followed by the entries (sequences). *)

Definition byte_of_N (n : N) : byte := default Byte.x00 (Byte.of_N n).

(** Modelled from the spec: the varint of the length prefix, which the
    codec's own file would define.  Base 128, low group first, the high bit
    set on every byte but the last; [fuel] bounds the number of
    continuation bytes and [EncodeUvarint] gives enough of it. *)
Fixpoint uvarint_bytes (fuel : nat) (n : N) : list byte :=
  match fuel with
  | O => [byte_of_N (n mod 128)]
  | S fuel' =>
      if n <? 128 then [byte_of_N n]
      else byte_of_N (128 + n mod 128) :: uvarint_bytes fuel' (n / 128)
  end.

Definition EncodeUvarint (n : N) : list byte :=
  uvarint_bytes (N.to_nat (N.size n)) n.

(** A decoder reads a value off the front of a buffer and returns the rest. *)
Definition parser (A : Type) : Type := list byte → option (A * list byte).

Definition pure {A : Type} (a : A) : parser A := λ bz, Some (a, bz).

Definition fail {A : Type} : parser A := λ _, None.

Definition bind {A B : Type} (p : parser A) (f : A → parser B) : parser B :=
  λ bz, match p bz with
        | Some (a, rest) => f a rest
        | None => None
        end.

Notation "x <- p ;; q" := (bind p (λ x, q))
  (at level 100, p at next level, right associativity, only parsing).

Definition lift {A : Type} (o : option A) : parser A :=
  match o with
  | Some a => pure a
  | None => fail
  end.

(** Modelled from the spec: the reader of a varint; it fails on a buffer
    that ends before the varint does. *)
Fixpoint DecodeUvarint (bz : list byte) : option (N * list byte) :=
  match bz with
  | [] => None
  | b :: rest =>
      let v := Byte.to_N b in
      if v <? 128 then Some (v, rest)
      else match DecodeUvarint rest with
           | Some (hi, rest') => Some (v - 128 + 128 * hi, rest')
           | None => None
           end
  end.

(** Modelled from the spec: a length-prefixed byte string. *)
Definition EncodeByteSlice (bs : list byte) : list byte :=
  EncodeUvarint (N.of_nat (length bs)) ++ bs.

Definition take_bytes (n : nat) : parser (list byte) :=
  λ bz, if decide (n ≤ length bz)%nat then Some (take n bz, drop n bz) else None.

Definition DecodeByteSlice : parser (list byte) :=
  n <- DecodeUvarint ;; take_bytes (N.to_nat n).

Definition EncodeString (s : string) : list byte :=
  EncodeByteSlice (String.list_byte_of_string s).

Definition DecodeString : parser string :=
  bs <- DecodeByteSlice ;; pure (String.string_of_list_byte bs).

Definition EncodeList {A : Type} (enc : A → list byte) (xs : list A) : list byte :=
  EncodeUvarint (N.of_nat (length xs)) ++ flat_map enc xs.

Fixpoint DecodeRepeated {A : Type} (p : parser A) (n : nat) : parser (list A) :=
  match n with
  | O => pure []
  | S n' => x <- p ;; xs <- DecodeRepeated p n' ;; pure (x :: xs)
  end.

Definition DecodeList {A : Type} (p : parser A) : parser (list A) :=
  n <- DecodeUvarint ;; DecodeRepeated p (N.to_nat n).

(** Modelled from the spec: the 1-byte discriminant written for each
    variant ([GetType]'s tag), and the reading of a discriminant byte: only
    these four bytes are known tags. *)
Definition KeyType_tag (t : KeyType) : byte :=
  match t with
  | TypeLocal => Byte.x00
  | TypeLedger => Byte.x01
  | TypeOffline => Byte.x02
  | TypeMulti => Byte.x03
  end.

Definition tag_KeyType (b : byte) : option KeyType :=
  match b with
  | Byte.x00 => Some TypeLocal
  | Byte.x01 => Some TypeLedger
  | Byte.x02 => Some TypeOffline
  | Byte.x03 => Some TypeMulti
  | _ => None
  end.

(** Modelled from the spec: the registry behind [CryptoCdc], as the codec
    value the spec passes to encode and decode.  It holds how the values of
    the collaborator types ([crypto.PubKey], [hd.BIP44Params],
    [SigningAlgo]) are serialised to bytes and read back; the codec treats
    them as opaque byte strings. *)
Record Codec {SigningAlgo BIP44Params : Type} : Type := {
  MarshalPubKey : crypto_PubKey → list byte;
  UnmarshalPubKey : list byte → option crypto_PubKey;
  MarshalPath : BIP44Params → list byte;
  UnmarshalPath : list byte → option BIP44Params;
  MarshalAlgo : SigningAlgo → list byte;
  UnmarshalAlgo : list byte → option SigningAlgo
}.
Arguments Codec : clear implicits.

(** ** A concrete registry and sample records

    One instance of the registry, used to run the codec on concrete
    records: algorithms are strings, a derivation path is the list of its
    components, and a key is written as a tag, then its fields. *)

Fixpoint plain_MarshalPubKey (pk : crypto_PubKey) : list byte :=
  match pk with
  | PubKeyNil => [Byte.x00]
  | PubKeyPlain ty key => Byte.x01 :: EncodeString ty ++ EncodeByteSlice key
  | PubKeyMultisigThreshold K pks =>
      Byte.x02 :: EncodeUvarint K
      ++ EncodeList (λ pk, EncodeByteSlice (plain_MarshalPubKey pk)) pks
  end.

(** A decoder that must use up its input. *)
Definition complete {A : Type} (p : parser A) (bs : list byte) : option A :=
  match p bs with
  | Some (a, []) => Some a
  | _ => None
  end.

Fixpoint plain_UnmarshalPubKey_fuel (fuel : nat) (bs : list byte)
    : option crypto_PubKey :=
  match fuel with
  | O => None
  | S fuel' =>
      match bs with
      | [] => None
      | t :: body =>
          match Byte.to_N t with
          | 0 => match body with [] => Some PubKeyNil | _ => None end
          | 1 =>
              complete
                (ty <- DecodeString ;;
                 key <- DecodeByteSlice ;;
                 pure (PubKeyPlain ty key)) body
          | 2 =>
              complete
                (K <- DecodeUvarint ;;
                 pks <- DecodeList
                          (b <- DecodeByteSlice ;;
                           lift (plain_UnmarshalPubKey_fuel fuel' b)) ;;
                 pure (PubKeyMultisigThreshold K pks)) body
          | _ => None
          end
      end
  end.

Definition plain_UnmarshalPubKey (bs : list byte) : option crypto_PubKey :=
  plain_UnmarshalPubKey_fuel (length bs) bs.

Definition plainCdc : Codec string (list N) := {|
  MarshalPubKey := plain_MarshalPubKey;
  UnmarshalPubKey := plain_UnmarshalPubKey;
  MarshalPath := EncodeList EncodeUvarint;
  UnmarshalPath := complete (DecodeList DecodeUvarint);
  MarshalAlgo := String.list_byte_of_string;
  UnmarshalAlgo := λ bs, Some (String.string_of_list_byte bs)
|}.

(** An address function for the samples: the first 20 bytes of the key. *)
Definition plain_Address (pk : crypto_PubKey) : option AccAddress :=
  Some (take 20 (plain_MarshalPubKey pk)).

Definition keyA : crypto_PubKey :=
  PubKeyPlain "secp256k1" [Byte.x02; Byte.xa1; Byte.x10].
Definition keyB : crypto_PubKey :=
  PubKeyPlain "secp256k1" [Byte.x03; Byte.xb2; Byte.x20].
Definition keyC : crypto_PubKey :=
  PubKeyPlain "ed25519" [Byte.xc3; Byte.x30].

(** The aggregate key of the spec's example: members [A, B, C], threshold 2. *)
Definition aggABC : crypto_PubKey :=
  PubKeyMultisigThreshold 2 [keyA; keyB; keyC].

(** A struct value the Go type admits although its threshold exceeds the
    number of members: the fields are exported and nothing checks them. *)
Definition aggOver : crypto_PubKey :=
  PubKeyMultisigThreshold 3 [keyA].

Definition sampleLocal : Info string (list N) :=
  InfoLocal (localInfo.mk "alice" keyA "armored-blob-1" "secp256k1").

Definition sampleLocal' : Info string (list N) :=
  InfoLocal (localInfo.mk "alice" keyA "armored-blob-2" "secp256k1").

Definition sampleLedger : Info string (list N) :=
  InfoLedger (ledgerInfo.mk "nano" keyB [44; 118; 0; 0; 0] "secp256k1").

Definition sampleOffline : Info string (list N) :=
  InfoOffline (offlineInfo.mk "cold" keyC "ed25519").

Definition sampleMulti : Info string (list N) :=
  InfoMulti
    (multiInfo.mk "x" aggABC 2
       [multisigPubKeyInfo.mk keyA 1;
        multisigPubKeyInfo.mk keyB 1;
        multisigPubKeyInfo.mk keyC 1]).

Section Keyring.

Context {SigningAlgo BIP44Params : Type}.

(** [MultiAlgo], a constant of type [SigningAlgo] declared next to it. *)
Variable MultiAlgo : SigningAlgo.

(** [pk.Address().Bytes()] of a non-nil key: the address derivation of the
    key's own package.  It gives the bytes, or [None] when the key's
    [Address()] panics instead of returning, as that of an aggregate key
    does when it cannot serialise one of its members. *)
Variable PubKey_Address : crypto_PubKey → option AccAddress.

Abbreviation Info := (Info SigningAlgo BIP44Params).

(** [i.PubKey.Address().Bytes()]: a method call through the interface
    value, which panics when that value is nil, and otherwise does what the
    key's own [Address()] does. *)
Definition deriveAddress (pk : crypto_PubKey) : result AccAddress :=
  match pk with
  | PubKeyNil => Panic NilDereference
  | _ =>
      match PubKey_Address pk with
      | Some address => Ok address
      | None => Panic CalleePanic
      end
  end.

(** *** Constructors *)

Definition newLocalInfo (name : string) (pub : crypto_PubKey)
    (privArmor : string) (algo : SigningAlgo) : Info :=
  InfoLocal (localInfo.mk name pub privArmor algo).

Definition newLedgerInfo (name : string) (pub : crypto_PubKey)
    (path : BIP44Params) (algo : SigningAlgo) : Info :=
  InfoLedger (ledgerInfo.mk name pub path algo).

Definition newOfflineInfo (name : string) (pub : crypto_PubKey)
    (algo : SigningAlgo) : Info :=
  InfoOffline (offlineInfo.mk name pub algo).

(** [NewMultiInfo].  The assertion
    [multiPK := pub.(multisig.PubKeyMultisigThreshold)] has no [ok] result,
    so a key of any other dynamic type, or nil, makes it panic. *)
Definition NewMultiInfo (name : string) (pub : crypto_PubKey) : result Info :=
  match pub with
  | PubKeyMultisigThreshold K PubKeys =>
      let pubKeys := make (length PubKeys) in
      and_then
        (for_range PubKeys
           (λ i pk pubKeys, slice_set pubKeys i (multisigPubKeyInfo.mk pk 1))
           pubKeys)
        (λ pubKeys, Ok (InfoMulti (multiInfo.mk name pub K pubKeys)))
  | _ => Panic InterfaceConversion
  end.

(** *** Methods of [localInfo] *)

Definition localInfo_GetType (i : localInfo.t SigningAlgo) : KeyType :=
  TypeLocal.
Definition localInfo_GetName (i : localInfo.t SigningAlgo) : string :=
  localInfo.Name i.
Definition localInfo_GetPubKey (i : localInfo.t SigningAlgo) : crypto_PubKey :=
  localInfo.PubKey i.
Definition localInfo_GetAddress (i : localInfo.t SigningAlgo) : result AccAddress :=
  deriveAddress (localInfo.PubKey i).
Definition localInfo_GetAlgo (i : localInfo.t SigningAlgo) : SigningAlgo :=
  localInfo.Algo i.
Definition localInfo_GetPath (i : localInfo.t SigningAlgo) : result BIP44Params :=
  Err PathUnavailable.

(** *** Methods of [ledgerInfo] *)

Definition ledgerInfo_GetType (i : ledgerInfo.t SigningAlgo BIP44Params) : KeyType :=
  TypeLedger.
Definition ledgerInfo_GetName (i : ledgerInfo.t SigningAlgo BIP44Params) : string :=
  ledgerInfo.Name i.
Definition ledgerInfo_GetPubKey (i : ledgerInfo.t SigningAlgo BIP44Params) : crypto_PubKey :=
  ledgerInfo.PubKey i.
Definition ledgerInfo_GetAddress (i : ledgerInfo.t SigningAlgo BIP44Params) : result AccAddress :=
  deriveAddress (ledgerInfo.PubKey i).
Definition ledgerInfo_GetAlgo (i : ledgerInfo.t SigningAlgo BIP44Params) : SigningAlgo :=
  ledgerInfo.Algo i.
Definition ledgerInfo_GetPath (i : ledgerInfo.t SigningAlgo BIP44Params) : result BIP44Params :=
  let tmp := ledgerInfo.Path i in
  Ok tmp.

(** *** Methods of [offlineInfo] *)

Definition offlineInfo_GetType (i : offlineInfo.t SigningAlgo) : KeyType :=
  TypeOffline.
Definition offlineInfo_GetName (i : offlineInfo.t SigningAlgo) : string :=
  offlineInfo.Name i.
Definition offlineInfo_GetPubKey (i : offlineInfo.t SigningAlgo) : crypto_PubKey :=
  offlineInfo.PubKey i.
Definition offlineInfo_GetAlgo (i : offlineInfo.t SigningAlgo) : SigningAlgo :=
  offlineInfo.Algo i.
Definition offlineInfo_GetAddress (i : offlineInfo.t SigningAlgo) : result AccAddress :=
  deriveAddress (offlineInfo.PubKey i).
Definition offlineInfo_GetPath (i : offlineInfo.t SigningAlgo) : result BIP44Params :=
  Err PathUnavailable.

(** *** Methods of [multiInfo] *)

Definition multiInfo_GetType (i : multiInfo.t) : KeyType :=
  TypeMulti.
Definition multiInfo_GetName (i : multiInfo.t) : string :=
  multiInfo.Name i.
Definition multiInfo_GetPubKey (i : multiInfo.t) : crypto_PubKey :=
  multiInfo.PubKey i.
Definition multiInfo_GetAddress (i : multiInfo.t) : result AccAddress :=
  deriveAddress (multiInfo.PubKey i).
Definition multiInfo_GetAlgo (i : multiInfo.t) : SigningAlgo :=
  MultiAlgo.
Definition multiInfo_GetPath (i : multiInfo.t) : result BIP44Params :=
  Err PathUnavailable.

(** *** The interface: a call dispatches on the dynamic type *)

Definition GetType (i : Info) : KeyType :=
  match i with
  | InfoLocal l => localInfo_GetType l
  | InfoLedger l => ledgerInfo_GetType l
  | InfoOffline o => offlineInfo_GetType o
  | InfoMulti m => multiInfo_GetType m
  end.

Definition GetName (i : Info) : string :=
  match i with
  | InfoLocal l => localInfo_GetName l
  | InfoLedger l => ledgerInfo_GetName l
  | InfoOffline o => offlineInfo_GetName o
  | InfoMulti m => multiInfo_GetName m
  end.

Definition GetPubKey (i : Info) : crypto_PubKey :=
  match i with
  | InfoLocal l => localInfo_GetPubKey l
  | InfoLedger l => ledgerInfo_GetPubKey l
  | InfoOffline o => offlineInfo_GetPubKey o
  | InfoMulti m => multiInfo_GetPubKey m
  end.

Definition GetAddress (i : Info) : result AccAddress :=
  match i with
  | InfoLocal l => localInfo_GetAddress l
  | InfoLedger l => ledgerInfo_GetAddress l
  | InfoOffline o => offlineInfo_GetAddress o
  | InfoMulti m => multiInfo_GetAddress m
  end.

Definition GetPath (i : Info) : result BIP44Params :=
  match i with
  | InfoLocal l => localInfo_GetPath l
  | InfoLedger l => ledgerInfo_GetPath l
  | InfoOffline o => offlineInfo_GetPath o
  | InfoMulti m => multiInfo_GetPath m
  end.

Definition GetAlgo (i : Info) : SigningAlgo :=
  match i with
  | InfoLocal l => localInfo_GetAlgo l
  | InfoLedger l => ledgerInfo_GetAlgo l
  | InfoOffline o => offlineInfo_GetAlgo o
  | InfoMulti m => multiInfo_GetAlgo m
  end.

(** *** The codec registry and the length-prefixed encoding *)

(** The package-level registry [CryptoCdc]. *)
Variable CryptoCdc : Codec SigningAlgo BIP44Params.

Definition EncodePubKey (pk : crypto_PubKey) : list byte :=
  EncodeByteSlice (MarshalPubKey CryptoCdc pk).

Definition DecodePubKey : parser crypto_PubKey :=
  bs <- DecodeByteSlice ;; lift (UnmarshalPubKey CryptoCdc bs).

Definition EncodePath (path : BIP44Params) : list byte :=
  EncodeByteSlice (MarshalPath CryptoCdc path).

Definition DecodePath : parser BIP44Params :=
  bs <- DecodeByteSlice ;; lift (UnmarshalPath CryptoCdc bs).

Definition EncodeAlgo (algo : SigningAlgo) : list byte :=
  EncodeByteSlice (MarshalAlgo CryptoCdc algo).

Definition DecodeAlgo : parser SigningAlgo :=
  bs <- DecodeByteSlice ;; lift (UnmarshalAlgo CryptoCdc bs).

Definition EncodeMember (m : multisigPubKeyInfo.t) : list byte :=
  EncodePubKey (multisigPubKeyInfo.PubKey m)
  ++ EncodeUvarint (multisigPubKeyInfo.Weight m).

Definition DecodeMember : parser multisigPubKeyInfo.t :=
  pk <- DecodePubKey ;;
  w <- DecodeUvarint ;;
  pure (multisigPubKeyInfo.mk pk w).

(** Modelled from the spec: the fields of each variant in the order of
    the struct, where [Algo] is last, and their decoders. *)
Definition encode_localInfo (i : localInfo.t SigningAlgo) : list byte :=
  EncodeString (localInfo.Name i)
  ++ EncodePubKey (localInfo.PubKey i)
  ++ EncodeString (localInfo.PrivKeyArmor i)
  ++ EncodeAlgo (localInfo.Algo i).

Definition decode_localInfo : parser (localInfo.t SigningAlgo) :=
  name <- DecodeString ;;
  pub <- DecodePubKey ;;
  armor <- DecodeString ;;
  algo <- DecodeAlgo ;;
  pure (localInfo.mk name pub armor algo).

Definition encode_ledgerInfo (i : ledgerInfo.t SigningAlgo BIP44Params) : list byte :=
  EncodeString (ledgerInfo.Name i)
  ++ EncodePubKey (ledgerInfo.PubKey i)
  ++ EncodePath (ledgerInfo.Path i)
  ++ EncodeAlgo (ledgerInfo.Algo i).

Definition decode_ledgerInfo : parser (ledgerInfo.t SigningAlgo BIP44Params) :=
  name <- DecodeString ;;
  pub <- DecodePubKey ;;
  path <- DecodePath ;;
  algo <- DecodeAlgo ;;
  pure (ledgerInfo.mk name pub path algo).

Definition encode_offlineInfo (i : offlineInfo.t SigningAlgo) : list byte :=
  EncodeString (offlineInfo.Name i)
  ++ EncodePubKey (offlineInfo.PubKey i)
  ++ EncodeAlgo (offlineInfo.Algo i).

Definition decode_offlineInfo : parser (offlineInfo.t SigningAlgo) :=
  name <- DecodeString ;;
  pub <- DecodePubKey ;;
  algo <- DecodeAlgo ;;
  pure (offlineInfo.mk name pub algo).

Definition encode_multiInfo (i : multiInfo.t) : list byte :=
  EncodeString (multiInfo.Name i)
  ++ EncodePubKey (multiInfo.PubKey i)
  ++ EncodeUvarint (multiInfo.Threshold i)
  ++ EncodeList EncodeMember (multiInfo.PubKeys i).

Definition decode_multiInfo : parser multiInfo.t :=
  name <- DecodeString ;;
  pub <- DecodePubKey ;;
  threshold <- DecodeUvarint ;;
  pubKeys <- DecodeList DecodeMember ;;
  pure (multiInfo.mk name pub threshold pubKeys).

Definition encode_fields (i : Info) : list byte :=
  match i with
  | InfoLocal l => encode_localInfo l
  | InfoLedger l => encode_ledgerInfo l
  | InfoOffline o => encode_offlineInfo o
  | InfoMulti m => encode_multiInfo m
  end.

Definition decode_fields (t : KeyType) : parser Info :=
  match t with
  | TypeLocal => l <- decode_localInfo ;; pure (InfoLocal l)
  | TypeLedger => l <- decode_ledgerInfo ;; pure (InfoLedger l)
  | TypeOffline => o <- decode_offlineInfo ;; pure (InfoOffline o)
  | TypeMulti => m <- decode_multiInfo ;; pure (InfoMulti m)
  end.

(** Modelled from the spec: the discriminant of the variant, then its
    fields. *)
Definition MarshalBinaryBare (i : Info) : list byte :=
  KeyType_tag (GetType i) :: encode_fields i.

(** Modelled from the spec: [CryptoCdc.MustMarshalBinaryLengthPrefixed],
    the length prefix, then the bare encoding. *)
Definition MustMarshalBinaryLengthPrefixed (i : Info) : list byte :=
  let bz := MarshalBinaryBare i in
  EncodeUvarint (N.of_nat (length bz)) ++ bz.

(** Modelled from the spec: reads the discriminant and dispatches to the
    decoder of that variant's fields, which must use up the buffer; an
    unknown discriminant is refused and never defaults to a variant. *)
Definition UnmarshalBinaryBare (bz : list byte) : result Info :=
  match bz with
  | [] => Err TruncatedInput
  | d :: fields =>
      match tag_KeyType d with
      | None => Err UnknownVariant
      | Some t =>
          match decode_fields t fields with
          | Some (i, []) => Ok i
          | _ => Err MalformedField
          end
      end
  end.

(** Modelled from the spec: [CryptoCdc.UnmarshalBinaryLengthPrefixed];
    it reads the length prefix and checks it against what is left of the
    buffer before anything else is read. *)
Definition UnmarshalBinaryLengthPrefixed (bz : list byte) : result Info :=
  match DecodeUvarint bz with
  | None => Err TruncatedInput
  | Some (n, rest) =>
      if decide (length rest < N.to_nat n)%nat then Err TruncatedInput
      else if decide (N.to_nat n < length rest)%nat then Err TrailingBytes
      else UnmarshalBinaryBare rest
  end.

(** [marshalInfo] and [unmarshalInfo], as in the source. *)
Definition marshalInfo (i : Info) : list byte :=
  MustMarshalBinaryLengthPrefixed i.

Definition unmarshalInfo (bz : list byte) : result Info :=
  UnmarshalBinaryLengthPrefixed bz.

(** *** Predicates used to state the properties *)

(** The dynamic type of the key is [multisig.PubKeyMultisigThreshold]. *)
Definition is_PubKeyMultisigThreshold (pk : crypto_PubKey) : bool :=
  match pk with
  | PubKeyMultisigThreshold _ _ => true
  | _ => false
  end.

(** [p] reads [a] off any buffer that starts with [enc]. *)
Definition parses {A : Type} (p : parser A) (enc : list byte) (a : A) : Prop :=
  ∀ rest, p (enc ++ rest) = Some (a, rest).

(** The registry gives back the collaborator values of a record: each key,
    path and algorithm stored in [i] survives its own serialisation. *)
Definition PubKey_roundtrips (pk : crypto_PubKey) : Prop :=
  UnmarshalPubKey CryptoCdc (MarshalPubKey CryptoCdc pk) = Some pk.

Definition Path_roundtrips (path : BIP44Params) : Prop :=
  UnmarshalPath CryptoCdc (MarshalPath CryptoCdc path) = Some path.

Definition Algo_roundtrips (algo : SigningAlgo) : Prop :=
  UnmarshalAlgo CryptoCdc (MarshalAlgo CryptoCdc algo) = Some algo.

Definition registry_roundtrips (i : Info) : Prop :=
  match i with
  | InfoLocal l =>
      PubKey_roundtrips (localInfo.PubKey l)
      ∧ Algo_roundtrips (localInfo.Algo l)
  | InfoLedger l =>
      PubKey_roundtrips (ledgerInfo.PubKey l)
      ∧ Path_roundtrips (ledgerInfo.Path l)
      ∧ Algo_roundtrips (ledgerInfo.Algo l)
  | InfoOffline o =>
      PubKey_roundtrips (offlineInfo.PubKey o)
      ∧ Algo_roundtrips (offlineInfo.Algo o)
  | InfoMulti m =>
      PubKey_roundtrips (multiInfo.PubKey m)
      ∧ Forall (λ e, PubKey_roundtrips (multisigPubKeyInfo.PubKey e))
          (multiInfo.PubKeys m)
  end.

(** ** Properties of the constructors and accessors *)

Lemma range_from_slice_set {A B : Type} (f : A → B) (z : B) (xs : list A) :
  ∀ pre : list B,
    range_from (length pre) xs (λ i x acc, slice_set acc i (f x))
      (pre ++ replicate (length xs) z)
    = Ok (pre ++ (f <$> xs)).
Proof.
  induction xs as [|x xs IH]; intros pre; simpl.
  - reflexivity.
  - unfold slice_set at 1.
    rewrite decide_True by (rewrite length_app; simpl; lia).
    rewrite insert_app_r_alt by lia.
    rewrite Nat.sub_diag. simpl.
    specialize (IH (pre ++ [f x])).
    rewrite length_app in IH. simpl in IH.
    rewrite Nat.add_1_r, <- !app_assoc in IH.
    exact IH.
Qed.

(** The loop of [NewMultiInfo] never indexes outside the slice it made, and
    leaves in it one entry per element, in order. *)
Lemma for_range_slice_set {A B : Type} (f : A → B) (z : B) (xs : list A) :
  for_range xs (λ i x acc, slice_set acc i (f x)) (replicate (length xs) z)
  = Ok (f <$> xs).
Proof.
  unfold for_range. exact (range_from_slice_set f z xs []).
Qed.

(** What [NewMultiInfo] returns on an aggregate key, as one equation. *)
Lemma NewMultiInfo_multisig (name : string) (K : N)
    (members : list crypto_PubKey) :
  NewMultiInfo name (PubKeyMultisigThreshold K members)
  = Ok (InfoMulti
          (multiInfo.mk name (PubKeyMultisigThreshold K members) K
             ((λ pk, multisigPubKeyInfo.mk pk 1) <$> members))).
Proof.
  unfold NewMultiInfo, make.
  rewrite for_range_slice_set. reflexivity.
Qed.

(** C4: from an aggregate key [agg] with threshold [K] and members
    [m_1 .. m_N], [NewMultiInfo n agg] returns a MultiSig record with name
    [n], key [agg], threshold [K] and [N] entries whose keys are
    [m_1 .. m_N] in that order, each of weight 1; a member that is itself
    an aggregate key is one such entry and is not expanded. *)
Theorem NewMultiInfo_members (name : string) (K : N)
    (members : list crypto_PubKey) :
  ∃ m : multiInfo.t,
    NewMultiInfo name (PubKeyMultisigThreshold K members) = Ok (InfoMulti m)
    ∧ multiInfo.Name m = name
    ∧ multiInfo.PubKey m = PubKeyMultisigThreshold K members
    ∧ multiInfo.Threshold m = K
    ∧ length (multiInfo.PubKeys m) = length members
    ∧ multisigPubKeyInfo.PubKey <$> multiInfo.PubKeys m = members
    ∧ Forall (λ e, multisigPubKeyInfo.Weight e = 1) (multiInfo.PubKeys m).
Proof.
  eexists. split; [apply NewMultiInfo_multisig|]. simpl.
  repeat split.
  - apply length_fmap.
  - rewrite <- list_fmap_compose. apply list_fmap_id.
  - apply Forall_fmap, Forall_true. reflexivity.
Qed.

(** C2 (as the code has it): for a key that is not a
    [PubKeyMultisigThreshold], the nil key included, [NewMultiInfo] returns
    neither a record nor an error value: the type assertion panics. *)
Theorem NewMultiInfo_not_multisig_panics (name : string) (pub : crypto_PubKey) :
  is_PubKeyMultisigThreshold pub = false →
  NewMultiInfo name pub = Panic InterfaceConversion.
Proof.
  intros Hpub. destruct pub as [| ty key | K members]; simpl in *.
  - reflexivity.
  - reflexivity.
  - discriminate Hpub.
Qed.

(** C8 (as the code has it): when the aggregate key has [K] at most its
    number of members, the record [NewMultiInfo] returns has its threshold
    at most its number of entries. *)
Theorem NewMultiInfo_threshold_le (name : string) (K : N)
    (members : list crypto_PubKey) :
  K ≤ N.of_nat (length members) →
  ∃ m, NewMultiInfo name (PubKeyMultisigThreshold K members) = Ok (InfoMulti m)
       ∧ multiInfo.Threshold m ≤ N.of_nat (length (multiInfo.PubKeys m)).
Proof.
  intros HK. eexists. split.
  - apply NewMultiInfo_multisig.
  - simpl. rewrite length_fmap. exact HK.
Qed.

(** The threshold and the number of entries are those of the key, whatever
    they are. *)
Lemma NewMultiInfo_copies_threshold (name : string) (K : N)
    (members : list crypto_PubKey) (m : multiInfo.t) :
  NewMultiInfo name (PubKeyMultisigThreshold K members) = Ok (InfoMulti m) →
  multiInfo.Threshold m = K ∧ length (multiInfo.PubKeys m) = length members.
Proof.
  rewrite NewMultiInfo_multisig. intros [= <-]. simpl.
  rewrite length_fmap. split; reflexivity.
Qed.

(** C3: [GetPath] returns the stored path of a Ledger record and fails with
    [PathUnavailable] on a Local, Offline or MultiSig record; it succeeds
    exactly on Ledger records. *)
Theorem GetPath_only_ledger (i : Info) :
  match i with
  | InfoLedger l => GetPath i = Ok (ledgerInfo.Path l)
  | _ => GetPath i = Err PathUnavailable
  end
  ∧ ((∃ path, GetPath i = Ok path) ↔ GetType i = TypeLedger).
Proof.
  destruct i as [l | l | o | m]; simpl.
  - split; [reflexivity|]. split; [intros [path H]; discriminate H | discriminate].
  - split; [reflexivity|]. split; [reflexivity | intros _; eexists; reflexivity].
  - split; [reflexivity|]. split; [intros [path H]; discriminate H | discriminate].
  - split; [reflexivity|]. split; [intros [path H]; discriminate H | discriminate].
Qed.

(** C6: on every record [GetAddress] is the address derived from
    [GetPubKey]; no address is stored, so records with the same key, and
    two calls on one record, give the same address. *)
Theorem GetAddress_deriveAddress (i : Info) :
  GetAddress i = deriveAddress (GetPubKey i)
  ∧ ∀ j : Info, GetPubKey j = GetPubKey i → GetAddress j = GetAddress i.
Proof.
  assert (H : ∀ k : Info, GetAddress k = deriveAddress (GetPubKey k)).
  { intros [l | l | o | m]; reflexivity. }
  split.
  - apply H.
  - intros j Hj. rewrite !H, Hj. reflexivity.
Qed.

(** C9: [GetAlgo] of a MultiSig record is [MultiAlgo], whatever the record
    holds. *)
Theorem multiInfo_GetAlgo_fixed (m : multiInfo.t) :
  GetAlgo (InfoMulti m) = MultiAlgo.
Proof.
  unfold GetAlgo, multiInfo_GetAlgo. reflexivity.
Qed.

(** C10: two Local records that differ only in [PrivKeyArmor] agree on
    every accessor: no accessor result depends on the blob. *)
Theorem localInfo_armor_unobservable (name : string) (pub : crypto_PubKey)
    (armor1 armor2 : string) (algo : SigningAlgo) :
  let i1 := newLocalInfo name pub armor1 algo in
  let i2 := newLocalInfo name pub armor2 algo in
  GetType i1 = GetType i2
  ∧ GetName i1 = GetName i2
  ∧ GetPubKey i1 = GetPubKey i2
  ∧ GetAddress i1 = GetAddress i2
  ∧ GetAlgo i1 = GetAlgo i2
  ∧ GetPath i1 = GetPath i2.
Proof.
  intros i1 i2. subst i1 i2. unfold newLocalInfo. simpl.
  unfold localInfo_GetType, localInfo_GetName, localInfo_GetPubKey,
    localInfo_GetAddress, localInfo_GetAlgo, localInfo_GetPath. simpl.
  repeat split.
Qed.

(** ** Properties of the wire primitives *)

Lemma byte_of_N_to_N (n : N) : n < 256 → Byte.to_N (byte_of_N n) = n.
Proof.
  intros Hn. unfold byte_of_N.
  destruct (Byte.of_N n) as [b|] eqn:E; simpl.
  - apply Byte.to_of_N. exact E.
  - apply Byte.of_N_None_iff in E. lia.
Qed.

Lemma DecodeUvarint_uvarint_bytes (fuel : nat) :
  ∀ (n : N) (rest : list byte),
    n < 128 * 128 ^ N.of_nat fuel →
    DecodeUvarint (uvarint_bytes fuel n ++ rest) = Some (n, rest).
Proof.
  induction fuel as [|fuel IH]; intros n rest Hn.
  - simpl in *.
    rewrite N.mod_small by lia.
    rewrite byte_of_N_to_N by lia.
    destruct (N.ltb_spec n 128); [reflexivity | lia].
  - cbn [uvarint_bytes].
    destruct (N.ltb_spec n 128) as [Hlt | Hge].
    + simpl. rewrite byte_of_N_to_N by lia.
      destruct (N.ltb_spec n 128); [reflexivity | lia].
    + assert (Hr : n mod 128 < 128) by (apply N.mod_lt; discriminate).
      pose proof (N.Div0.div_mod n 128) as Hqr.
      rewrite Nat2N.inj_succ, N.pow_succ_r' in Hn.
      specialize (IH (n / 128) rest).
      set (q := n / 128) in *. set (r := n mod 128) in *.
      clearbody q r.
      cbn [app DecodeUvarint].
      rewrite byte_of_N_to_N by lia.
      destruct (N.ltb_spec (128 + r) 128); [lia|].
      rewrite IH by lia.
      f_equal. f_equal. lia.
Qed.

Lemma DecodeUvarint_EncodeUvarint (n : N) : parses DecodeUvarint (EncodeUvarint n) n.
Proof.
  intros rest. unfold EncodeUvarint.
  apply DecodeUvarint_uvarint_bytes.
  rewrite N2Nat.id.
  pose proof (N.size_gt n) as Hs.
  assert (2 ^ N.size n ≤ 128 ^ N.size n) by (apply N.pow_le_mono_l; lia).
  assert (0 < 128 ^ N.size n) by (apply N.neq_0_lt_0, N.pow_nonzero; lia).
  lia.
Qed.

(** ** Properties of the decoder combinators *)

Lemma parses_pure {A : Type} (a : A) : parses (pure a) [] a.
Proof. intros rest. reflexivity. Qed.

Lemma parses_bind {A B : Type} (p : parser A) (f : A → parser B)
    (e1 e2 : list byte) (a : A) (b : B) :
  parses p e1 a → parses (f a) e2 b → parses (bind p f) (e1 ++ e2) b.
Proof.
  intros Hp Hf rest. unfold bind.
  rewrite <- app_assoc, Hp. apply Hf.
Qed.

Lemma parses_bind_pure {A B : Type} (p : parser A) (g : A → B)
    (e : list byte) (a : A) :
  parses p e a → parses (bind p (λ x, pure (g x))) e (g a).
Proof.
  intros Hp rest. unfold bind. rewrite Hp. reflexivity.
Qed.

Lemma parses_lift {A : Type} (o : option A) (a : A) :
  o = Some a → parses (lift o) [] a.
Proof. intros -> rest. reflexivity. Qed.

Lemma parses_take_bytes (bs : list byte) : parses (take_bytes (length bs)) bs bs.
Proof.
  intros rest. unfold take_bytes.
  rewrite decide_True by (rewrite length_app; lia).
  rewrite take_app_length, drop_app_length. reflexivity.
Qed.

Lemma DecodeByteSlice_EncodeByteSlice (bs : list byte) :
  parses DecodeByteSlice (EncodeByteSlice bs) bs.
Proof.
  unfold DecodeByteSlice, EncodeByteSlice.
  apply parses_bind with (a := N.of_nat (length bs)).
  - apply DecodeUvarint_EncodeUvarint.
  - rewrite Nat2N.id. apply parses_take_bytes.
Qed.

Lemma DecodeString_EncodeString (s : string) :
  parses DecodeString (EncodeString s) s.
Proof.
  unfold DecodeString, EncodeString.
  rewrite <- (String.string_of_list_byte_of_string s) at 2.
  apply parses_bind_pure, DecodeByteSlice_EncodeByteSlice.
Qed.

Lemma DecodeRepeated_flat_map {A : Type} (p : parser A) (enc : A → list byte)
    (xs : list A) :
  Forall (λ x, parses p (enc x) x) xs →
  parses (DecodeRepeated p (length xs)) (flat_map enc xs) xs.
Proof.
  induction 1 as [|x xs Hx _ IH]; simpl.
  - apply parses_pure.
  - apply parses_bind with (a := x); [exact Hx|].
    apply parses_bind_pure with (g := cons x). exact IH.
Qed.

Lemma DecodeList_EncodeList {A : Type} (p : parser A) (enc : A → list byte)
    (xs : list A) :
  Forall (λ x, parses p (enc x) x) xs →
  parses (DecodeList p) (EncodeList enc xs) xs.
Proof.
  intros Hxs. unfold DecodeList, EncodeList.
  apply parses_bind with (a := N.of_nat (length xs)).
  - apply DecodeUvarint_EncodeUvarint.
  - rewrite Nat2N.id. apply DecodeRepeated_flat_map, Hxs.
Qed.

(** A value serialised by the registry and wrapped as a byte string is read
    back when the registry reads its own bytes back. *)
Lemma parses_registry_value {A : Type} (marshal : A → list byte)
    (unmarshal : list byte → option A) (a : A) :
  unmarshal (marshal a) = Some a →
  parses (bind DecodeByteSlice (λ bs, lift (unmarshal bs)))
    (EncodeByteSlice (marshal a)) a.
Proof.
  intros Ha.
  rewrite <- (app_nil_r (EncodeByteSlice (marshal a))).
  apply parses_bind with (a := marshal a).
  - apply DecodeByteSlice_EncodeByteSlice.
  - apply parses_lift, Ha.
Qed.

Lemma DecodePubKey_EncodePubKey (pk : crypto_PubKey) :
  PubKey_roundtrips pk → parses DecodePubKey (EncodePubKey pk) pk.
Proof. apply parses_registry_value. Qed.

Lemma DecodePath_EncodePath (path : BIP44Params) :
  Path_roundtrips path → parses DecodePath (EncodePath path) path.
Proof. apply parses_registry_value. Qed.

Lemma DecodeAlgo_EncodeAlgo (algo : SigningAlgo) :
  Algo_roundtrips algo → parses DecodeAlgo (EncodeAlgo algo) algo.
Proof. apply parses_registry_value. Qed.

Lemma DecodeMember_EncodeMember (e : multisigPubKeyInfo.t) :
  PubKey_roundtrips (multisigPubKeyInfo.PubKey e) →
  parses DecodeMember (EncodeMember e) e.
Proof.
  intros He. destruct e as [pk w]. unfold DecodeMember, EncodeMember. simpl in *.
  apply parses_bind with (a := pk); [apply DecodePubKey_EncodePubKey, He|].
  apply parses_bind_pure with (g := multisigPubKeyInfo.mk pk).
  apply DecodeUvarint_EncodeUvarint.
Qed.

Create HintDb codec discriminated.

#[local] Hint Resolve DecodeString_EncodeString DecodeUvarint_EncodeUvarint
  DecodeByteSlice_EncodeByteSlice DecodePubKey_EncodePubKey
  DecodePath_EncodePath DecodeAlgo_EncodeAlgo : codec.

(** One more field [v] of a record: its decoder reads it, the rest of the
    record follows. *)
Tactic Notation "parse_field" uconstr(v) :=
  apply parses_bind with (a := v); [solve [auto with codec]|].

(** The last field, after which the constructor closes the record. *)
Tactic Notation "parse_last" uconstr(ctor) :=
  apply parses_bind_pure with (g := ctor); solve [auto with codec].

Lemma decode_fields_encode_fields (i : Info) :
  registry_roundtrips i →
  parses (decode_fields (GetType i)) (encode_fields i) i.
Proof.
  destruct i as [[name pub armor algo] | [name pub path algo]
                | [name pub algo] | [name pub threshold pubKeys]];
    simpl; unfold encode_localInfo, decode_localInfo, encode_ledgerInfo,
      decode_ledgerInfo, encode_offlineInfo, decode_offlineInfo,
      encode_multiInfo, decode_multiInfo; simpl.
  - intros [Hpub Halgo].
    apply parses_bind_pure with (g := InfoLocal).
    parse_field name. parse_field pub. parse_field armor.
    parse_last (localInfo.mk name pub armor).
  - intros (Hpub & Hpath & Halgo).
    apply parses_bind_pure with (g := InfoLedger).
    parse_field name. parse_field pub. parse_field path.
    parse_last (ledgerInfo.mk name pub path).
  - intros [Hpub Halgo].
    apply parses_bind_pure with (g := InfoOffline).
    parse_field name. parse_field pub.
    parse_last (offlineInfo.mk name pub).
  - intros [Hpub Hmembers].
    apply parses_bind_pure with (g := InfoMulti).
    parse_field name. parse_field pub. parse_field threshold.
    apply parses_bind_pure with (g := multiInfo.mk name pub threshold).
    apply DecodeList_EncodeList.
    eapply Forall_impl; [exact Hmembers|].
    intros e He. apply DecodeMember_EncodeMember, He.
Qed.

Lemma tag_KeyType_KeyType_tag (t : KeyType) : tag_KeyType (KeyType_tag t) = Some t.
Proof. destruct t; reflexivity. Qed.



(** What [UnmarshalBinaryLengthPrefixed] does with a buffer whose length
    prefix is the length of what follows it. *)
Lemma UnmarshalBinaryLengthPrefixed_framed (body : list byte) :
  UnmarshalBinaryLengthPrefixed (EncodeByteSlice body) = UnmarshalBinaryBare body.
Proof.
  unfold UnmarshalBinaryLengthPrefixed, EncodeByteSlice.
  rewrite DecodeUvarint_EncodeUvarint, Nat2N.id.
  rewrite !decide_False by lia. reflexivity.
Qed.

(** The length-prefixed decoder undoes the length-prefixed encoder. *)
Lemma UnmarshalBinaryLengthPrefixed_MustMarshal (i : Info) :
  registry_roundtrips i →
  UnmarshalBinaryLengthPrefixed (MustMarshalBinaryLengthPrefixed i) = Ok i.
Proof.
  intros Hi.
  change (UnmarshalBinaryLengthPrefixed (EncodeByteSlice (MarshalBinaryBare i)) = Ok i).
  rewrite UnmarshalBinaryLengthPrefixed_framed.
  unfold UnmarshalBinaryBare, MarshalBinaryBare.
  rewrite tag_KeyType_KeyType_tag.
  pose proof (decode_fields_encode_fields i Hi []) as Hfields.
  rewrite app_nil_r in Hfields. rewrite Hfields. reflexivity.
Qed.

(** C1: a record of any of the four variants, whose keys, path and
    algorithm the registry reads back from its own bytes, is decoded from
    its encoding: [unmarshalInfo (marshalInfo v)] succeeds with a record
    equal to [v] in every field, the member entries in their order. *)
Theorem unmarshalInfo_marshalInfo (i : Info) :
  registry_roundtrips i → unmarshalInfo (marshalInfo i) = Ok i.
Proof.
  intros Hi. unfold unmarshalInfo, marshalInfo.
  apply UnmarshalBinaryLengthPrefixed_MustMarshal, Hi.
Qed.

(** ** Corrupted input *)







(** ** Further properties of the constructors and accessors *)

(** X1: [NewMultiInfo] returns a record exactly when the key is a
    [PubKeyMultisigThreshold]; it never returns an error value, and the
    only way it panics is the failed type assertion: the loop never leaves
    the slice it made. *)
Theorem NewMultiInfo_outcome (name : string) (pub : crypto_PubKey) :
  ((∃ i : Info, NewMultiInfo name pub = Ok i)
   ↔ is_PubKeyMultisigThreshold pub = true)
  ∧ (∀ e : error, NewMultiInfo name pub ≠ Err e)
  ∧ (∀ p : panic,
       NewMultiInfo name pub = Panic p →
       p = InterfaceConversion ∧ is_PubKeyMultisigThreshold pub = false).
Proof.
  destruct pub as [| ty key | K members].
  - simpl. repeat split; try discriminate.
    + intros [i Hi]. discriminate Hi.
    + congruence.
  - simpl. repeat split; try discriminate.
    + intros [i Hi]. discriminate Hi.
    + congruence.
  - rewrite NewMultiInfo_multisig. simpl. repeat split; try discriminate.
    intros _. eexists. reflexivity.
Qed.

(** X2: on the record [NewMultiInfo] builds from an aggregate key, the
    accessors give the tag [TypeMulti], the name and the key that were
    passed in, [MultiAlgo], no path, and as address what the aggregate
    key's own address derivation gives. *)
Theorem NewMultiInfo_accessors (name : string) (K : N)
    (members : list crypto_PubKey) :
  let agg := PubKeyMultisigThreshold K members in
  ∃ i : Info,
    NewMultiInfo name agg = Ok i
    ∧ GetType i = TypeMulti
    ∧ GetName i = name
    ∧ GetPubKey i = agg
    ∧ GetAddress i = deriveAddress agg
    ∧ GetAlgo i = MultiAlgo
    ∧ GetPath i = Err PathUnavailable.
Proof.
  intros agg. subst agg. eexists. split; [apply NewMultiInfo_multisig|].
  repeat split.
Qed.

(** X3: the threshold and the member entries of a MultiSig record are read
    by no accessor: two records with the same name and key agree on all
    six, whatever their thresholds and entries. *)
Theorem multiInfo_threshold_entries_unobservable (name : string)
    (pub : crypto_PubKey) (threshold1 threshold2 : N)
    (pubKeys1 pubKeys2 : list multisigPubKeyInfo.t) :
  let i1 : Info := InfoMulti (multiInfo.mk name pub threshold1 pubKeys1) in
  let i2 : Info := InfoMulti (multiInfo.mk name pub threshold2 pubKeys2) in
  GetType i1 = GetType i2
  ∧ GetName i1 = GetName i2
  ∧ GetPubKey i1 = GetPubKey i2
  ∧ GetAddress i1 = GetAddress i2
  ∧ GetAlgo i1 = GetAlgo i2
  ∧ GetPath i1 = GetPath i2.
Proof.
  intros i1 i2. subst i1 i2. simpl.
  unfold multiInfo_GetType, multiInfo_GetName, multiInfo_GetPubKey,
    multiInfo_GetAddress, multiInfo_GetAlgo, multiInfo_GetPath. simpl.
  repeat split.
Qed.

(** X5: a record on which [GetPath] succeeds is a Ledger record and holds
    nothing the accessors do not show: [newLedgerInfo] applied to its
    name, key, path and algorithm builds the record again. *)
Theorem newLedgerInfo_of_accessors (i : Info) (path : BIP44Params) :
  GetPath i = Ok path →
  newLedgerInfo (GetName i) (GetPubKey i) path (GetAlgo i) = i.
Proof.
  destruct i as [l | [name pub path' algo] | o | m]; simpl;
    try discriminate.
  unfold ledgerInfo_GetPath. simpl. intros [= <-]. reflexivity.
Qed.

(** X6: an Offline record holds nothing the accessors do not show:
    [newOfflineInfo] applied to its name, key and algorithm builds the
    record again. *)
Theorem newOfflineInfo_of_accessors (i : Info) :
  GetType i = TypeOffline →
  newOfflineInfo (GetName i) (GetPubKey i) (GetAlgo i) = i.
Proof.
  destruct i as [l | l | [name pub algo] | m]; simpl; try discriminate.
  intros _. reflexivity.
Qed.

(** X7: each of the three plain constructors stores its arguments
    unchecked and the accessors read them back: the tag is that of the
    variant, name, key and algorithm are the arguments, and only the Ledger
    record has a path, the one passed in. *)
Theorem constructors_accessors (name : string) (pub : crypto_PubKey)
    (privArmor : string) (path : BIP44Params) (algo : SigningAlgo) :
  let l := newLocalInfo name pub privArmor algo in
  let g := newLedgerInfo name pub path algo in
  let o := newOfflineInfo name pub algo in
  (GetType l = TypeLocal ∧ GetType g = TypeLedger ∧ GetType o = TypeOffline)
  ∧ (GetName l = name ∧ GetName g = name ∧ GetName o = name)
  ∧ (GetPubKey l = pub ∧ GetPubKey g = pub ∧ GetPubKey o = pub)
  ∧ (GetAlgo l = algo ∧ GetAlgo g = algo ∧ GetAlgo o = algo)
  ∧ (GetPath l = Err PathUnavailable ∧ GetPath g = Ok path
     ∧ GetPath o = Err PathUnavailable)
  ∧ (GetAddress l = deriveAddress pub ∧ GetAddress g = deriveAddress pub
     ∧ GetAddress o = deriveAddress pub).
Proof.
  intros l g o. subst l g o. repeat split.
Qed.

(** X8: the record [NewMultiInfo] returns is in step with its own key:
    the stored threshold and the keys of the stored entries, in order, are
    the threshold and the members of the key stored beside them. *)
Theorem NewMultiInfo_in_step_with_key (name : string) (pub : crypto_PubKey)
    (m : multiInfo.t) :
  NewMultiInfo name pub = Ok (InfoMulti m) →
  multiInfo.PubKey m
  = PubKeyMultisigThreshold (multiInfo.Threshold m)
      (multisigPubKeyInfo.PubKey <$> multiInfo.PubKeys m).
Proof.
  destruct pub as [| ty key | K members]; try discriminate.
  rewrite NewMultiInfo_multisig. intros [= <-]. simpl.
  rewrite <- list_fmap_compose, list_fmap_id. reflexivity.
Qed.

End Keyring.

(** ** The concrete registry reads back every value *)

(** Induction on keys, with the members of an aggregate key covered. *)
Lemma crypto_PubKey_Forall_ind (P : crypto_PubKey → Prop) :
  P PubKeyNil →
  (∀ ty key, P (PubKeyPlain ty key)) →
  (∀ K members, Forall P members → P (PubKeyMultisigThreshold K members)) →
  ∀ pk, P pk.
Proof.
  intros Hnil Hplain Hmulti.
  fix IH 1. intros [| ty key | K members].
  - exact Hnil.
  - apply Hplain.
  - apply Hmulti. induction members as [|pk members IHmembers].
    + constructor.
    + constructor; [apply IH | exact IHmembers].
Qed.

Lemma complete_parses {A : Type} (p : parser A) (enc : list byte) (a : A) :
  parses p enc a → complete p enc = Some a.
Proof.
  intros Hp. unfold complete.
  specialize (Hp []). rewrite app_nil_r in Hp. rewrite Hp. reflexivity.
Qed.

Lemma length_flat_map_elem {A : Type} (enc : A → list byte) (xs : list A) (x : A) :
  x ∈ xs → (length (enc x) ≤ length (flat_map enc xs))%nat.
Proof.
  induction 1 as [x xs | x y xs _ IH]; simpl; rewrite length_app; lia.
Qed.

Lemma plain_UnmarshalPubKey_fuel_Marshal (pk : crypto_PubKey) :
  ∀ fuel : nat,
    (length (plain_MarshalPubKey pk) ≤ fuel)%nat →
    plain_UnmarshalPubKey_fuel fuel (plain_MarshalPubKey pk) = Some pk.
Proof.
  induction pk as [| ty key | K members IH] using crypto_PubKey_Forall_ind;
    intros [|fuel] Hfuel; simpl in Hfuel; try lia.
  - reflexivity.
  - cbn [plain_MarshalPubKey plain_UnmarshalPubKey_fuel]. simpl Byte.to_N. cbv iota.
    apply complete_parses.
    apply parses_bind with (a := ty); [apply DecodeString_EncodeString|].
    apply parses_bind_pure with (g := PubKeyPlain ty).
    apply DecodeByteSlice_EncodeByteSlice.
  - cbn [plain_MarshalPubKey plain_UnmarshalPubKey_fuel]. simpl Byte.to_N. cbv iota.
    apply complete_parses.
    apply parses_bind with (a := K); [apply DecodeUvarint_EncodeUvarint|].
    apply parses_bind_pure with (g := PubKeyMultisigThreshold K).
    apply DecodeList_EncodeList.
    rewrite Forall_forall in IH |- *. intros pk Hpk.
    apply parses_registry_value with (marshal := plain_MarshalPubKey).
    apply IH; [exact Hpk|].
    pose proof (length_flat_map_elem
                  (λ pk, EncodeByteSlice (plain_MarshalPubKey pk)) members pk Hpk)
      as Hlen.
    assert (length (plain_MarshalPubKey pk)
            ≤ length (EncodeByteSlice (plain_MarshalPubKey pk)))%nat as Hslice
      by (unfold EncodeByteSlice; rewrite length_app; lia).
    unfold EncodeList in Hfuel. rewrite !length_app in Hfuel. lia.
Qed.

Lemma plain_UnmarshalPubKey_Marshal (pk : crypto_PubKey) :
  PubKey_roundtrips plainCdc pk.
Proof.
  unfold PubKey_roundtrips. simpl. unfold plain_UnmarshalPubKey.
  apply plain_UnmarshalPubKey_fuel_Marshal. lia.
Qed.

Lemma plainCdc_Path_roundtrips (path : list N) : Path_roundtrips plainCdc path.
Proof.
  unfold Path_roundtrips. simpl.
  apply complete_parses, DecodeList_EncodeList.
  apply Forall_true. intros n. apply DecodeUvarint_EncodeUvarint.
Qed.

Lemma plainCdc_Algo_roundtrips (algo : string) : Algo_roundtrips plainCdc algo.
Proof.
  unfold Algo_roundtrips. simpl.
  rewrite String.string_of_list_byte_of_string. reflexivity.
Qed.

Lemma plainCdc_registry_roundtrips (i : Info string (list N)) :
  registry_roundtrips plainCdc i.
Proof.
  destruct i as [l | l | o | m]; simpl;
    repeat split;
    try apply plain_UnmarshalPubKey_Marshal;
    try apply plainCdc_Path_roundtrips;
    try apply plainCdc_Algo_roundtrips.
  apply Forall_true. intros e. apply plain_UnmarshalPubKey_Marshal.
Qed.

(** With the concrete registry the round trip holds for every record, with
    no side condition. *)
Corollary plainCdc_unmarshal_marshal (i : Info string (list N)) :
  UnmarshalBinaryLengthPrefixed plainCdc (MustMarshalBinaryLengthPrefixed plainCdc i)
  = Ok i.
Proof.
  apply UnmarshalBinaryLengthPrefixed_MustMarshal, plainCdc_registry_roundtrips.
Qed.

(** ** The properties on the sample records *)

(** The example of the spec: members [A, B, C] and threshold 2. *)
Example NewMultiInfo_aggABC :
  @NewMultiInfo string (list N) "x" aggABC = Ok sampleMulti.
Proof. apply NewMultiInfo_multisig. Qed.

(** A member that is itself an aggregate key stays one entry of weight 1. *)
Example NewMultiInfo_nested :
  @NewMultiInfo string (list N) "n" (PubKeyMultisigThreshold 1 [aggABC; keyA])
  = Ok (InfoMulti
          (multiInfo.mk "n" (PubKeyMultisigThreshold 1 [aggABC; keyA]) 1
             [multisigPubKeyInfo.mk aggABC 1; multisigPubKeyInfo.mk keyA 1])).
Proof. apply NewMultiInfo_multisig. Qed.

(** C2, the claim as stated fails: on a plain key [NewMultiInfo] does not
    return the error [NotAMultisigKey]. *)
Lemma NewMultiInfo_plain_key_no_error :
  is_PubKeyMultisigThreshold keyA = false
  ∧ @NewMultiInfo string (list N) "x" keyA ≠ Err NotAMultisigKey.
Proof.
  split; [reflexivity|].
  unfold NewMultiInfo, keyA. discriminate.
Qed.

(** [NewMultiInfo_not_multisig_panics] on the plain key [keyA]. *)
Lemma NewMultiInfo_not_multisig_panics_witness :
  is_PubKeyMultisigThreshold keyA = false
  ∧ @NewMultiInfo string (list N) "x" keyA = Panic InterfaceConversion.
Proof.
  split; [reflexivity|].
  apply (@NewMultiInfo_not_multisig_panics string (list N) "x" keyA).
  reflexivity.
Defined.

(** C8, the claim as stated fails: the struct value with threshold 3 and
    one member gives a record whose threshold exceeds its entries. *)
Lemma NewMultiInfo_threshold_exceeds_members :
  ∃ m, @NewMultiInfo string (list N) "x" aggOver = Ok (InfoMulti m)
       ∧ ¬ (multiInfo.Threshold m ≤ N.of_nat (length (multiInfo.PubKeys m))).
Proof.
  eexists. split.
  - apply NewMultiInfo_multisig.
  - simpl. lia.
Qed.

(** [NewMultiInfo_threshold_le] on the key with members [A, B, C] and
    threshold 2. *)
Lemma NewMultiInfo_threshold_le_witness :
  2 ≤ N.of_nat (length [keyA; keyB; keyC])
  ∧ ∃ m, @NewMultiInfo string (list N) "x" aggABC = Ok (InfoMulti m)
         ∧ multiInfo.Threshold m ≤ N.of_nat (length (multiInfo.PubKeys m)).
Proof.
  assert (H : 2 ≤ N.of_nat (length [keyA; keyB; keyC])) by (simpl; lia).
  split; [exact H|].
  exact (@NewMultiInfo_threshold_le string (list N) "x" 2 [keyA; keyB; keyC] H).
Defined.

(** [unmarshalInfo_marshalInfo] on one record of each variant, with the
    concrete registry. *)
Lemma unmarshalInfo_marshalInfo_witness :
  (registry_roundtrips plainCdc sampleLocal
   ∧ unmarshalInfo plainCdc (marshalInfo plainCdc sampleLocal) = Ok sampleLocal)
  ∧ (registry_roundtrips plainCdc sampleLedger
     ∧ unmarshalInfo plainCdc (marshalInfo plainCdc sampleLedger) = Ok sampleLedger)
  ∧ (registry_roundtrips plainCdc sampleOffline
     ∧ unmarshalInfo plainCdc (marshalInfo plainCdc sampleOffline) = Ok sampleOffline)
  ∧ (registry_roundtrips plainCdc sampleMulti
     ∧ unmarshalInfo plainCdc (marshalInfo plainCdc sampleMulti) = Ok sampleMulti).
Proof.
  assert (H1 : registry_roundtrips plainCdc sampleLocal)
    by (vm_compute; repeat constructor).
  assert (H2 : registry_roundtrips plainCdc sampleLedger)
    by (vm_compute; repeat constructor).
  assert (H3 : registry_roundtrips plainCdc sampleOffline)
    by (vm_compute; repeat constructor).
  assert (H4 : registry_roundtrips plainCdc sampleMulti)
    by (vm_compute; repeat constructor).
  refine (conj (conj H1 _) (conj (conj H2 _) (conj (conj H3 _) (conj H4 _)))).
  - exact (unmarshalInfo_marshalInfo plainCdc sampleLocal H1).
  - exact (unmarshalInfo_marshalInfo plainCdc sampleLedger H2).
  - exact (unmarshalInfo_marshalInfo plainCdc sampleOffline H3).
  - exact (unmarshalInfo_marshalInfo plainCdc sampleMulti H4).
Defined.



(** The bytes around the failing cases, run. *)
Example unmarshalInfo_xff :
  unmarshalInfo plainCdc [Byte.x01; Byte.xff] = Err UnknownVariant.
Proof. reflexivity. Qed.

Example unmarshalInfo_short_frame :
  unmarshalInfo plainCdc [Byte.x05; Byte.xff] = Err TruncatedInput.
Proof. reflexivity. Qed.

Example unmarshalInfo_long_frame :
  unmarshalInfo plainCdc [Byte.x01; Byte.xff; Byte.x00] = Err TrailingBytes.
Proof. reflexivity. Qed.

(** The accessors on the samples. *)
Example GetPath_samples :
  GetPath sampleLedger = Ok [44; 118; 0; 0; 0]
  ∧ GetPath sampleLocal = Err PathUnavailable
  ∧ GetPath sampleOffline = Err PathUnavailable
  ∧ GetPath sampleMulti = Err PathUnavailable.
Proof. repeat split. Qed.

Example GetAlgo_sampleMulti : GetAlgo "multi" sampleMulti = "multi".
Proof. reflexivity. Qed.

Example accessors_ignore_armor :
  sampleLocal ≠ sampleLocal'
  ∧ GetAddress plain_Address sampleLocal = GetAddress plain_Address sampleLocal'
  ∧ GetAlgo "multi" sampleLocal = GetAlgo "multi" sampleLocal'.
Proof. split; [discriminate | split; reflexivity]. Qed.

(** ** The further properties on the sample records *)

(** [newLedgerInfo_of_accessors] on the Ledger sample. *)
Lemma newLedgerInfo_of_accessors_witness :
  GetPath sampleLedger = Ok [44; 118; 0; 0; 0]
  ∧ newLedgerInfo (GetName sampleLedger) (GetPubKey sampleLedger)
      [44; 118; 0; 0; 0] (GetAlgo "multi" sampleLedger)
    = sampleLedger.
Proof.
  assert (H : GetPath sampleLedger = Ok [44; 118; 0; 0; 0]) by reflexivity.
  split; [exact H|].
  exact (newLedgerInfo_of_accessors "multi" sampleLedger [44; 118; 0; 0; 0] H).
Defined.

(** [newOfflineInfo_of_accessors] on the Offline sample. *)
Lemma newOfflineInfo_of_accessors_witness :
  GetType sampleOffline = TypeOffline
  ∧ newOfflineInfo (GetName sampleOffline) (GetPubKey sampleOffline)
      (GetAlgo "multi" sampleOffline)
    = sampleOffline.
Proof.
  assert (H : GetType sampleOffline = TypeOffline) by reflexivity.
  split; [exact H|].
  exact (newOfflineInfo_of_accessors "multi" sampleOffline H).
Defined.

(** [NewMultiInfo_in_step_with_key] on the key with members [A, B, C]. *)
Lemma NewMultiInfo_in_step_with_key_witness :
  @NewMultiInfo string (list N) "x" aggABC = Ok sampleMulti
  ∧ aggABC
    = PubKeyMultisigThreshold 2
        (multisigPubKeyInfo.PubKey
           <$> [multisigPubKeyInfo.mk keyA 1;
                multisigPubKeyInfo.mk keyB 1;
                multisigPubKeyInfo.mk keyC 1]).
Proof.
  assert (H : @NewMultiInfo string (list N) "x" aggABC = Ok sampleMulti)
    by reflexivity.
  split; [exact H|].
  exact (@NewMultiInfo_in_step_with_key string (list N) "x" aggABC _ H).
Defined.

(** A record stored with a nil key: every constructor takes it, and
    [GetAddress] panics on it. *)
Example GetAddress_nil_key :
  GetAddress plain_Address (@newOfflineInfo string (list N) "k" PubKeyNil "ed25519")
  = Panic NilDereference.
Proof. reflexivity. Qed.
